(** * handeye_calib_camodocal: a shallow embedding of src/handeye_calibration.cpp

    The program keeps global capture buffers ([baseToTip], [cameraToTag],
    the relative-motion vectors [rvecsArm], ...), fills them from an
    interactive key loop ([main], [addFrame]), persists pose pairs through
    OpenCV's FileStorage and hands the relative motions to camodocal's
    hand-eye solver.

    Modelling conventions.
    - Doubles are Rocq's primitive IEEE-754 binary64 floats ([float]).
    - Eigen's rigid transforms ([Eigen::Affine3d]) and the Eigen operations
      used on them (product, [inverse()], [rotation()], [translation()]) are
      section variables: they are library code, not code of this repository.
      [rotation()] of an [Affine3d] is a polar decomposition through
      [JacobiSVD] and is left abstract for that reason.
    - The conversion [eigenRotToEigenVector3dAngleAxis] is the repository's
      own code; it is given concretely, with the two Eigen conversions it goes
      through ([Quaternion(const Matrix3d&)] and
      [AngleAxis::operator=(const QuaternionBase&)], Eigen 3.3) written out
      over floats.  Only [atan2] of libm stays a parameter.
    - [std::vector::pop_back] on an empty vector is undefined behaviour; it is
      modelled by [None].
    - Vector sizes and [int] loop counters are modelled as exact naturals:
      the model covers vectors of fewer than 2^31 elements, where the
      program's [int] counters and [int frameCount = t1.size()] are exact. *)

From Stdlib Require Import Floats.
From stdpp Require Import base list strings pretty.

Local Open Scope float_scope.

(* ------------------------------------------------------------------ *)
(** ** Eigen's 3-vectors, 3x3 matrices and quaternions over doubles *)

Record Vec3 := mkVec3 { vx : float; vy : float; vz : float }.

Record Mat3 := mkMat3 {
  m00 : float; m01 : float; m02 : float;
  m10 : float; m11 : float; m12 : float;
  m20 : float; m21 : float; m22 : float }.

(** [mat.coeff(r, c)] *)
Definition coeff (m : Mat3) (r c : nat) : float :=
  match r, c with
  | 0, 0 => m00 m | 0, 1 => m01 m | 0, _ => m02 m
  | 1, 0 => m10 m | 1, 1 => m11 m | 1, _ => m12 m
  | _, 0 => m20 m | _, 1 => m21 m | _, _ => m22 m
  end.

Definition trace (m : Mat3) : float := m00 m + m11 m + m22 m.

Definition identity3 : Mat3 :=
  mkMat3 1 0 0
         0 1 0
         0 0 1.

(** Eigen stores quaternion coefficients as [coeffs() = (x, y, z, w)]. *)
Record Quat := mkQuat { qx : float; qy : float; qz : float; qw : float }.

Definition quat_vec (q : Quat) : Vec3 := mkVec3 (qx q) (qy q) (qz q).

(** [q.coeffs().coeffRef(i) = v] for [i] in 0..2 *)
Definition quat_set (q : Quat) (i : nat) (v : float) : Quat :=
  match i with
  | 0 => mkQuat v (qy q) (qz q) (qw q)
  | 1 => mkQuat (qx q) v (qz q) (qw q)
  | _ => mkQuat (qx q) (qy q) v (qw q)
  end.

Definition quat_zero : Quat := mkQuat 0 0 0 0.

(** Eigen 3.3, [quaternionbase_assign_impl<Other,3,3>::run]: conversion of
    a rotation matrix to a quaternion. *)
Definition quat_of_mat (mat : Mat3) : Quat :=
  let t := trace mat in
  if 0 <? t then
    let t := sqrt (t + 1) in
    let w := 0.5 * t in
    let t := 0.5 / t in
    mkQuat ((coeff mat 2 1 - coeff mat 1 2) * t)
           ((coeff mat 0 2 - coeff mat 2 0) * t)
           ((coeff mat 1 0 - coeff mat 0 1) * t)
           w
  else
    let i := if coeff mat 0 0 <? coeff mat 1 1 then 1%nat else 0%nat in
    let i := if coeff mat i i <? coeff mat 2 2 then 2%nat else i in
    let j := ((i + 1) mod 3)%nat in
    let k := ((j + 1) mod 3)%nat in
    let t := sqrt (coeff mat i i - coeff mat j j - coeff mat k k + 1) in
    let q := quat_set quat_zero i (0.5 * t) in
    let t := 0.5 / t in
    let q := mkQuat (qx q) (qy q) (qz q) ((coeff mat k j - coeff mat j k) * t) in
    let q := quat_set q j ((coeff mat j i + coeff mat i j) * t) in
    quat_set q k ((coeff mat k i + coeff mat i k) * t).

Definition squaredNorm (v : Vec3) : float := vx v * vx v + vy v * vy v + vz v * vz v.

Definition norm (v : Vec3) : float := sqrt (squaredNorm v).

Definition vec_scale (s : float) (v : Vec3) : Vec3 :=
  mkVec3 (s * vx v) (s * vy v) (s * vz v).

Definition vec_div (v : Vec3) (s : float) : Vec3 :=
  mkVec3 (vx v / s) (vy v / s) (vz v / s).

Definition vec_abs_max (v : Vec3) : float :=
  let a := abs (vx v) in
  let b := abs (vy v) in
  let c := abs (vz v) in
  let m := if a <? b then b else a in
  if m <? c then c else m.

(** [NumTraits<double>::epsilon()] and [NumTraits<double>::highest()] *)
Definition epsilon : float := 0x1p-52.
Definition highest : float := 0x1.fffffffffffffp+1023.

(** Eigen 3.3, [stable_norm_impl] on a 3-vector: one block through
    [stable_norm_kernel] starting from [scale = 0], [invScale = 1],
    [ssq = 0], then [scale * sqrt(ssq)]. *)
Definition stableNorm (v : Vec3) : float :=
  let maxCoeff := vec_abs_max v in
  let '(scale, invScale) :=
    if 0 <? maxCoeff then
      let tmp := 1 / maxCoeff in
      if highest <? tmp then (1 / highest, highest)
      else if highest <? maxCoeff then (maxCoeff, 1)
      else (maxCoeff, tmp)
    else if negb (maxCoeff =? maxCoeff) then (maxCoeff, 1)
    else (0, 1) in
  let ssq := if 0 <? scale then squaredNorm (vec_scale invScale v) else 0 in
  scale * sqrt ssq.

(** [Eigen::AngleAxisd]: an angle and a unit axis. *)
Record AngleAxis := mkAngleAxis { angle : float; axis : Vec3 }.

Section AngleAxisConversion.

(** [std::atan2] of libm. *)
Variable atan2 : float -> float -> float.

(** Eigen 3.3, [AngleAxis<Scalar>::operator=(const QuaternionBase&)]. *)
Definition angleAxis_of_quat (q : Quat) : AngleAxis :=
  let n := norm (quat_vec q) in
  let n := if n <? epsilon then stableNorm (quat_vec q) else n in
  if negb (n =? 0) then
    let ang := 2 * atan2 n (abs (qw q)) in
    let n := if qw q <? 0 then - n else n in
    mkAngleAxis ang (vec_div (quat_vec q) n)
  else
    mkAngleAxis 0 (mkVec3 1 0 0).

(** [AngleAxis(const MatrixBase&)] goes through the quaternion. *)
Definition angleAxis_of_mat (m : Mat3) : AngleAxis :=
  angleAxis_of_quat (quat_of_mat m).

(** handeye_calibration.cpp, lines 29-34:
    [Eigen::AngleAxisd ax3d(eigenQuat); return ax3d.angle() * ax3d.axis();] *)
Definition eigenRotToEigenVector3dAngleAxis (m : Mat3) : Vec3 :=
  let ax3d := angleAxis_of_mat m in
  vec_scale (angle ax3d) (axis ax3d).

End AngleAxisConversion.

(* ------------------------------------------------------------------ *)
(** ** Solver summary ([ceres::Solver::Summary], the fields the program reads) *)

Record Summary := mkSummary {
  initial_cost : float;
  final_cost : float;
  termination_type : Z;
  num_successful_steps : Z;
  num_unsuccessful_steps : Z }.

(** ROS log output. *)
Inductive Log :=
| ROS_INFO (msg : string)
| ROS_INFO_COUNT (fmt : string) (n : nat)
| ROS_WARN (msg : string).

(** A concrete instance of the library operations, for evaluating the
    model on small inputs: [Eigen::Affine3d] collapsed to one point, the
    rotation of every transform the identity, every translation zero, a
    solver that returns a fixed summary. *)
Definition unit_mul (_ _ : unit) : unit := tt.
Definition unit_inverse (_ : unit) : unit := tt.
Definition unit_rotation (_ : unit) : Mat3 := identity3.
Definition unit_translation (_ : unit) : Vec3 := mkVec3 0 0 0.
Definition unit_tf (_ : unit) : unit := tt.
Definition atan2_stub (_ _ : float) : float := 0.
Definition cvRound_stub (_ : float) : Z := 0.
Definition summary_stub : Summary := mkSummary 2 0.5 0 3 1.
Definition solver_stub (_ _ _ _ : list Vec3) : unit * Summary := (tt, summary_stub).

Section Program.

(** [Eigen::Affine3d] and the Eigen operations used on it. *)
Variable Aff : Type.
Variable aff_mul : Aff -> Aff -> Aff.          (* operator* *)
Variable aff_inverse : Aff -> Aff.             (* inverse() *)
Variable aff_rotation : Aff -> Mat3.           (* rotation() *)
Variable aff_translation : Aff -> Vec3.        (* translation() *)
(** A default-constructed [Eigen::Affine3d] whose coefficients the
    program has not assigned. *)
Variable affineDefault : Aff.
(** [tf::StampedTransform] and [tf::transformTFToEigen]. *)
Variable Tf : Type.
Variable transformTFToEigen : Tf -> Aff.
(** [std::atan2], used inside [eigenRotToEigenVector3dAngleAxis]. *)
Variable atan2 : float -> float -> float.
(** [cvRound], used when FileStorage reads a real node as an int. *)
Variable cvRound : float -> Z.
(** [camodocal::HandEyeCalibration::estimateHandEyeScrew]: relative
    motions in, the 4x4 result (as an affine transform) and the summary out. *)
Variable estimateHandEyeScrew :
  list Vec3 -> list Vec3 -> list Vec3 -> list Vec3 -> Aff * Summary.

Definition angleAxisVec (m : Mat3) : Vec3 :=
  eigenRotToEigenVector3dAngleAxis atan2 m.

(** The reference pose and the relative-motion vectors: the globals
    [firstTransform], [firstEEInverse], [firstCamInverse], [rvecsArm],
    [tvecsArm], [rvecsFiducial], [tvecsFiducial] (lines 23-25), and the
    locals of the same names in [estimateHandEye] (lines 179-182). *)
Record MotionState := mkMotionState {
  firstTransform : bool;
  firstEEInverse : Aff;
  firstCamInverse : Aff;
  rvecsArm : list Vec3;
  tvecsArm : list Vec3;
  rvecsFiducial : list Vec3;
  tvecsFiducial : list Vec3 }.

Definition motions_init : MotionState :=
  mkMotionState true affineDefault affineDefault [] [] [] [].

(** The body shared by the loop of [estimateHandEye] (lines 188-221) and
    the success branch of [addFrame] (lines 332-384), on the pair
    [eigenEE], [eigenCam]. *)
Definition push_pair (st : MotionState) (eigenEE eigenCam : Aff) : MotionState :=
  if firstTransform st then
    mkMotionState false (aff_inverse eigenEE) (aff_inverse eigenCam)
      (rvecsArm st) (tvecsArm st) (rvecsFiducial st) (tvecsFiducial st)
  else
    let robotTipinFirstTipBase := aff_mul (firstEEInverse st) eigenEE in
    let fiducialInFirstFiducialBase := aff_mul (firstCamInverse st) eigenCam in
    mkMotionState false (firstEEInverse st) (firstCamInverse st)
      (rvecsArm st ++ [angleAxisVec (aff_rotation robotTipinFirstTipBase)])
      (tvecsArm st ++ [aff_translation robotTipinFirstTipBase])
      (rvecsFiducial st ++ [angleAxisVec (aff_rotation fiducialInFirstFiducialBase)])
      (tvecsFiducial st ++ [aff_translation fiducialInFirstFiducialBase]).

Definition push_pair_log (st : MotionState) : Log :=
  if firstTransform st then ROS_INFO "Adding first transformation."
  else ROS_INFO "Hand Eye Calibration Transform Pair Added".

(** The loop of [estimateHandEye] (lines 176-226): it runs over
    [baseToTip] and advances an iterator into [camToTag] in step;
    dereferencing that iterator past the end of [camToTag] is undefined
    behaviour ([None]). *)
Fixpoint derive_loop (st : MotionState) (bt ct : list Aff) : option MotionState :=
  match bt with
  | [] => Some st
  | eigenEE :: bt' =>
      match ct with
      | [] => None
      | eigenCam :: ct' => derive_loop (push_pair st eigenEE eigenCam) bt' ct'
      end
  end.

Fixpoint derive_loop_log (st : MotionState) (bt ct : list Aff) : list Log :=
  match bt, ct with
  | eigenEE :: bt', eigenCam :: ct' =>
      push_pair_log st :: derive_loop_log (push_pair st eigenEE eigenCam) bt' ct'
  | _, _ => []
  end.

(** The four relative-motion vectors [estimateHandEye] hands to the
    solver. *)
Definition estimateHandEye_derivation (bt ct : list Aff)
  : option (list Vec3 * list Vec3 * list Vec3 * list Vec3) :=
  match derive_loop motions_init bt ct with
  | Some st => Some (rvecsArm st, tvecsArm st, rvecsFiducial st, tvecsFiducial st)
  | None => None
  end.

(** OpenCV FileStorage: a node and a storage as the ordered list of its
    top-level entries.  A 4x4 [cv::Mat_<double>] copied from and to an
    [Affine3d] by [eigen2cv]/[cv2eigen] holds the same doubles; FileStorage
    prints doubles with 17 significant digits, so they read back exactly. *)
Inductive Node :=
| NInt (z : Z)
| NReal (f : float)
| NMat4 (a : Aff)
| NRow (l : list float).

Definition FileStore := list (string * Node).

Fixpoint fs_lookup (key : string) (fs : FileStore) : option Node :=
  match fs with
  | [] => None
  | (k, v) :: fs' => if String.eqb key k then Some v else fs_lookup key fs'
  end.

(** Program output besides the globals. *)
Inductive Event :=
| EvLog (l : Log)
| EvSolve (rA tA rF tF : list Vec3)
| EvReport (fromName toName : string) (result : Aff)
| EvWritePairs (code : Z) (file : FileStore)
| EvWriteCalib (file : FileStore).

(** [estimateHandEye] (lines 171-236), with the names [EETFname] and
    [cameraTFname] it reads for [reportCalibration]. *)
Definition estimateHandEye (eeName camName : string) (bt ct : list Aff)
  : option (list Event * Aff * Summary) :=
  match estimateHandEye_derivation bt ct with
  | None => None
  | Some (rA, tA, rF, tF) =>
      let '(result, summary) := estimateHandEyeScrew rA tA rF tF in
      Some (map EvLog (derive_loop_log motions_init bt ct)
              ++ [EvSolve rA tA rF tF; EvReport eeName camName result],
            result, summary)
  end.

(** [writeTransformPairsToFile] (lines 37-74).  [opened] is the outcome of
    [fs.isOpened()]; the result is the return code and the file written.
    The loop runs over [t1] and advances an iterator into [t2] in step;
    dereferencing it past the end of [t2] is undefined behaviour. *)
Fixpoint write_pairs (i : nat) (t1 t2 : list Aff) : option FileStore :=
  match t1 with
  | [] => Some []
  | a :: t1' =>
      match t2 with
      | [] => None
      | b :: t2' =>
          match write_pairs (S i) t1' t2' with
          | Some rest =>
              Some ((String.append "T1_" (pretty i), NMat4 a)
                    :: (String.append "T2_" (pretty i), NMat4 b) :: rest)
          | None => None
          end
      end
  end.

Definition writeTransformPairsToFile (opened : bool) (t1 t2 : list Aff)
  : option (Z * FileStore) :=
  let frameCount := Z.of_nat (length t1) in
  if opened then
    match write_pairs 0 t1 t2 with
    | Some rest => Some (0%Z, ("frameCount", NInt frameCount) :: rest)
    | None => None
    end
  else Some (1%Z, []).

(** [node >> int]: a missing node gives the default [0], an int node its
    value, a real node [cvRound] of it, any other node [INT_MAX]. *)
Definition read_int (n : option Node) : Z :=
  match n with
  | None => 0
  | Some (NInt z) => z
  | Some (NReal f) => cvRound f
  | Some _ => 2147483647
  end.

(** [node >> t1cv; cv::cv2eigen(t1cv, t1e.matrix())]: a 4x4 matrix node
    gives that matrix; a missing node leaves [t1cv] empty and [t1e]
    unassigned; any other node is outside the model ([None]: OpenCV raises
    or copies a matrix of another shape). *)
Definition read_aff (n : option Node) : option Aff :=
  match n with
  | None => Some affineDefault
  | Some (NMat4 a) => Some a
  | Some _ => None
  end.

(** The loop of [readTransformPairsFromFile] (lines 90-113), for the
    indices [i], ..., [i + count - 1]. *)
Fixpoint read_pairs (fs : FileStore) (i count : nat) : option (list Aff * list Aff) :=
  match count with
  | 0 => Some ([], [])
  | S count' =>
      match read_aff (fs_lookup (String.append "T1_" (pretty i)) fs),
            read_aff (fs_lookup (String.append "T2_" (pretty i)) fs),
            read_pairs fs (S i) count' with
      | Some a, Some b, Some (l1, l2) => Some (a :: l1, b :: l2)
      | _, _, _ => None
      end
  end.

(** [readTransformPairsFromFile] (lines 77-122): [file] is [None] when the
    file cannot be opened; the loaded pairs are pushed through
    [std::back_inserter] onto [t1] and [t2]. *)
Definition readTransformPairsFromFile (file : option FileStore) (t1 t2 : list Aff)
  : option (Z * list Aff * list Aff) :=
  match file with
  | None => Some (1%Z, t1, t2)
  | Some fs =>
      let frameCount := read_int (fs_lookup "frameCount" fs) in
      match read_pairs fs 0 (Z.to_nat frameCount) with
      | Some (l1, l2) => Some (0%Z, t1 ++ l1, t2 ++ l2)
      | None => None
      end
  end.

(** [writeCalibration] (lines 238-279): the entries written when the file
    opens, in order. *)
Definition writeCalibration (opened : bool) (resultAffine : Aff) (summary : Summary)
  : FileStore :=
  if opened then
    let resultQuat := quat_of_mat (aff_rotation resultAffine) in
    let tr := aff_translation resultAffine in
    [("handToEyeTF",
       NRow [vx tr; vy tr; vz tr; qx resultQuat; qy resultQuat; qz resultQuat;
             qw resultQuat]);
     ("handToEyeTransform", NMat4 resultAffine);
     ("initial_cost", NReal (initial_cost summary));
     ("final_cost", NReal (final_cost summary));
     ("change_cost", NReal (initial_cost summary - final_cost summary));
     ("termination_type", NInt (termination_type summary));
     ("num_successful_iteration", NInt (num_successful_steps summary));
     ("num_unsuccessful_iteration", NInt (num_unsuccessful_steps summary));
     ("num_iteration",
       NInt (num_unsuccessful_steps summary + num_successful_steps summary)%Z)]
  else [].

(** The global state of the capture session (lines 20-27). *)
Record Globals := mkGlobals {
  EETFname : string;
  cameraTFname : string;
  motions : MotionState;
  baseToTip : list Aff;
  cameraToTag : list Aff }.

Definition set_capture (g : Globals) (m : MotionState) (bt ct : list Aff) : Globals :=
  mkGlobals (EETFname g) (cameraTFname g) m bt ct.

(** [addFrame] (lines 297-394): [cam] and [ee] are the outcomes of the two
    [waitForTransform]/[lookupTransform] calls ([None] on timeout). *)
Definition addFrame (cam ee : option Tf) (g : Globals) : Globals * list Log :=
  let camWarn := match cam with
                 | Some _ => []
                 | None => [ROS_WARN "Fail to Cam TF transform between %s to %s"]
                 end in
  let eeWarn := match ee with
                | Some _ => []
                | None => [ROS_WARN "Fail to EE TF transform between %s to %s"]
                end in
  match ee, cam with
  | Some eeT, Some camT =>
      let eigenEE := transformTFToEigen eeT in
      let eigenCam := transformTFToEigen camT in
      let st := motions g in
      (set_capture g (push_pair st eigenEE eigenCam)
         (baseToTip g ++ [eigenEE]) (cameraToTag g ++ [eigenCam]),
       camWarn ++ eeWarn ++ [push_pair_log st])
  | _, _ =>
      (g, camWarn ++ eeWarn ++ [ROS_WARN "Fail to get one/both of needed TF transform"])
  end.

(** [std::vector::pop_back]: undefined on an empty vector. *)
Definition pop_back {A} (l : list A) : option (list A) :=
  match l with
  | [] => None
  | _ => Some (removelast l)
  end.

(** The key events of [main]'s loop, with the outcomes of the environment
    they depend on. *)
Inductive Cmd :=
| KeyS (cam ee : option Tf) (recordOpened : bool)
| KeyD
| KeyQ (calibOpened : bool)
| KeyOther (key : Z).

(** The ['d'] branch (lines 453-464). *)
Definition undo (g : Globals) : option (Globals * list Event) :=
  let st := motions g in
  match pop_back (rvecsArm st), pop_back (tvecsArm st),
        pop_back (rvecsFiducial st), pop_back (tvecsFiducial st),
        pop_back (baseToTip g), pop_back (cameraToTag g) with
  | Some rA, Some tA, Some rF, Some tF, Some bt, Some ct =>
      Some (set_capture g
              (mkMotionState (firstTransform st) (firstEEInverse st)
                 (firstCamInverse st) rA tA rF tF) bt ct,
            [EvLog (ROS_INFO_COUNT "Deleted last frame transformation. Number of Current Transformations: %u"
                      (length (rvecsArm st)))])
  | _, _, _, _, _, _ => None
  end.

(** The ['q'] branch (lines 465-486). *)
Definition finalize (calibOpened : bool) (g : Globals) : list Event :=
  let st := motions g in
  let warn := if (length (rvecsArm st) <? 5)%nat
              then [EvLog (ROS_WARN "Number of calibration transform pairs < 5.");
                    EvLog (ROS_INFO "Node Quit")]
              else [] in
  let '(resultAffine, summary) :=
    estimateHandEyeScrew (rvecsArm st) (tvecsArm st) (rvecsFiducial st)
      (tvecsFiducial st) in
  warn ++ [EvLog (ROS_INFO "Calculating Calibration...");
           EvSolve (rvecsArm st) (tvecsArm st) (rvecsFiducial st) (tvecsFiducial st);
           EvReport (EETFname g) (cameraTFname g) resultAffine;
           EvWriteCalib (writeCalibration calibOpened resultAffine summary)].

(** One iteration of [main]'s key loop (lines 444-492): the new globals,
    the output, and whether the loop breaks.  [None]: undefined behaviour. *)
Definition main_step (c : Cmd) (g : Globals) : option (Globals * list Event * bool) :=
  match c with
  | KeyS cam ee recordOpened =>
      let '(g', logs) := addFrame cam ee g in
      match writeTransformPairsToFile recordOpened (baseToTip g') (cameraToTag g') with
      | Some (code, file) => Some (g', map EvLog logs ++ [EvWritePairs code file], false)
      | None => None
      end
  | KeyD =>
      match undo g with
      | Some (g', evs) => Some (g', evs, false)
      | None => None
      end
  | KeyQ calibOpened => Some (g, finalize calibOpened g, true)
  | KeyOther _ => Some (g, [], false)
  end.

(** A run of the key loop over a sequence of key events. *)
Fixpoint run (cs : list Cmd) (g : Globals) : option (Globals * list Event) :=
  match cs with
  | [] => Some (g, [])
  | c :: cs' =>
      match main_step c g with
      | None => None
      | Some (g', evs, true) => Some (g', evs)
      | Some (g', evs, false) =>
          match run cs' g' with
          | Some (g'', evs') => Some (g'', evs ++ evs')
          | None => None
          end
      end
  end.

(** The state at the start of the interactive session. *)
Definition globals_init (eeName camName : string) : Globals :=
  mkGlobals eeName camName motions_init [] [].

(** [main] with [load_transforms_from_file] set (lines 420-430): read the
    pairs file into fresh vectors (the return code is not looked at), run
    [estimateHandEye] on them and write the calibration. *)
Definition main_load (eeName camName : string) (file : option FileStore)
  (calibOpened : bool) : option (list Event) :=
  match readTransformPairsFromFile file [] [] with
  | None => None
  | Some (_, t1, t2) =>
      match estimateHandEye eeName camName t1 t2 with
      | None => None
      | Some (evs, result, summary) =>
          Some (evs ++ [EvWriteCalib (writeCalibration calibOpened result summary)])
      end
  end.

(** The keys [writeTransformPairsToFile] gives pair [i]. *)
Definition key_T1 (i : nat) : string := String.append "T1_" (pretty i).
Definition key_T2 (i : nat) : string := String.append "T2_" (pretty i).

(** A state the key loop reaches from the start of a session. *)
Definition reachable (g : Globals) : Prop :=
  exists cs eeName camName evs, run cs (globals_init eeName camName) = Some (g, evs).

(* ------------------------------------------------------------------ *)
(** ** The relative-motion derivation *)

Definition rel_rot (inv e : Aff) : Vec3 :=
  angleAxisVec (aff_rotation (aff_mul inv e)).

Definition rel_trans (inv e : Aff) : Vec3 :=
  aff_translation (aff_mul inv e).

(** The relative motions as [estimateHandEye] hands them to the solver,
    read off its output. *)
Definition solver_inputs (out : option (list Event * Aff * Summary))
  : option (list Vec3 * list Vec3 * list Vec3 * list Vec3) :=
  match out with
  | None => None
  | Some (evs, _, _) =>
      let fix find (evs : list Event) :=
        match evs with
        | [] => None
        | EvSolve rA tA rF tF :: _ => Some (rA, tA, rF, tF)
        | _ :: evs' => find evs'
        end in
      find evs
  end.

(** The stored pairs have equal length and the reference and
    relative-motion globals are the derivation of the stored pairs. *)
Definition capture_inv (g : Globals) : Prop :=
  length (baseToTip g) = length (cameraToTag g) /\
  derive_loop motions_init (baseToTip g) (cameraToTag g) = Some (motions g).

Lemma derive_loop_after_first (bs cs : list Aff) (st : MotionState) :
  length bs = length cs -> firstTransform st = false ->
  derive_loop st bs cs =
    Some (mkMotionState false (firstEEInverse st) (firstCamInverse st)
            (rvecsArm st ++ map (rel_rot (firstEEInverse st)) bs)
            (tvecsArm st ++ map (rel_trans (firstEEInverse st)) bs)
            (rvecsFiducial st ++ map (rel_rot (firstCamInverse st)) cs)
            (tvecsFiducial st ++ map (rel_trans (firstCamInverse st)) cs)).
Proof.
  revert cs st. induction bs as [|e bs IH]; intros [|c cs] st Hlen Hfirst;
    simpl in Hlen; try discriminate.
  - destruct st; simpl in *; subst. rewrite !app_nil_r. reflexivity.
  - simpl. rewrite IH by (try lia; unfold push_pair; rewrite Hfirst; reflexivity).
    unfold push_pair. rewrite Hfirst. simpl. rewrite <- !app_assoc. reflexivity.
Qed.

Lemma derive_loop_cons (b0 c0 : Aff) (bs cs : list Aff) :
  length bs = length cs ->
  derive_loop motions_init (b0 :: bs) (c0 :: cs) =
    Some (mkMotionState false (aff_inverse b0) (aff_inverse c0)
            (map (rel_rot (aff_inverse b0)) bs)
            (map (rel_trans (aff_inverse b0)) bs)
            (map (rel_rot (aff_inverse c0)) cs)
            (map (rel_trans (aff_inverse c0)) cs)).
Proof.
  intros Hlen. simpl. rewrite derive_loop_after_first by (simpl; auto). reflexivity.
Qed.

Lemma derive_loop_snoc (st : MotionState) (l1 l2 : list Aff) (a b : Aff) :
  length l1 = length l2 ->
  derive_loop st (l1 ++ [a]) (l2 ++ [b]) =
    match derive_loop st l1 l2 with
    | Some s => Some (push_pair s a b)
    | None => None
    end.
Proof.
  revert st l2. induction l1 as [|x l1 IH]; intros st [|y l2] Hlen;
    simpl in Hlen; try discriminate; simpl; auto.
Qed.

Lemma derive_loop_first_true (st s : MotionState) (bt ct : list Aff) :
  derive_loop st bt ct = Some s -> firstTransform s = true ->
  bt = [] /\ s = st.
Proof.
  revert st ct. induction bt as [|e bt IH]; intros st ct Hd Hf.
  - simpl in Hd. injection Hd as <-. auto.
  - destruct ct as [|c ct]; [discriminate|]. simpl in Hd.
    destruct bt as [|e' bt].
    + simpl in Hd. injection Hd as <-. unfold push_pair in Hf.
      destruct (firstTransform st); discriminate.
    + destruct (IH _ _ Hd Hf) as [Habs _]. discriminate.
Qed.

Lemma solver_inputs_estimateHandEye (eeName camName : string) (bt ct : list Aff) :
  solver_inputs (estimateHandEye eeName camName bt ct) = estimateHandEye_derivation bt ct.
Proof.
  unfold estimateHandEye.
  destruct (estimateHandEye_derivation bt ct) as [[[[rA tA] rF] tF]|]; [|reflexivity].
  destruct (estimateHandEyeScrew rA tA rF tF) as [result summary]. simpl.
  generalize (derive_loop_log motions_init bt ct).
  induction l as [|x l IH]; [reflexivity|]. simpl. exact IH.
Qed.

(** C1. For a non-empty sequence of [N] pose pairs (equal-length
    [baseToTip] and [camToTag]), the loop of [estimateHandEye] yields
    exactly [N-1] entries in each of the four relative-motion vectors, and
    entry [i] is the motion of pair [i+1] relative to pair [0]: the
    axis-angle vector and translation of [poseA[0]^-1 * poseA[i+1]] and of
    [poseB[0]^-1 * poseB[i+1]]; entry [0] is pair [1] relative to pair [0]. *)
Theorem estimateHandEye_derivation_relative (b0 c0 : Aff) (bs cs : list Aff) :
  length bs = length cs ->
  exists rA tA rF tF,
    estimateHandEye_derivation (b0 :: bs) (c0 :: cs) = Some (rA, tA, rF, tF) /\
    length rA = length bs /\ length tA = length bs /\
    length rF = length bs /\ length tF = length bs /\
    (forall (i : nat) (e c : Aff), bs !! i = Some e -> cs !! i = Some c ->
       rA !! i = Some (angleAxisVec (aff_rotation (aff_mul (aff_inverse b0) e))) /\
       tA !! i = Some (aff_translation (aff_mul (aff_inverse b0) e)) /\
       rF !! i = Some (angleAxisVec (aff_rotation (aff_mul (aff_inverse c0) c))) /\
       tF !! i = Some (aff_translation (aff_mul (aff_inverse c0) c))).
Proof.
  intros Hlen. unfold estimateHandEye_derivation. rewrite derive_loop_cons by exact Hlen.
  simpl. do 4 eexists. split; [reflexivity|].
  rewrite !length_map. split; [reflexivity|]. split; [reflexivity|].
  split; [lia|]. split; [lia|].
  intros j e c He Hc. rewrite !list_lookup_fmap, He, Hc. repeat split.
Qed.

(** C8. The derivation is a function of the two pose sequences alone: the
    relative motions [estimateHandEye] passes to the solver are
    [estimateHandEye_derivation baseToTip camToTag] whatever the global
    state (its reference pose, capture buffers and frame names), so two runs
    on the identical sequences give identical motion sequences. *)
Theorem estimateHandEye_derivation_deterministic (g1 g2 : Globals) (bt ct : list Aff) :
  solver_inputs (estimateHandEye (EETFname g1) (cameraTFname g1) bt ct) =
    solver_inputs (estimateHandEye (EETFname g2) (cameraTFname g2) bt ct) /\
  solver_inputs (estimateHandEye (EETFname g1) (cameraTFname g1) bt ct) =
    estimateHandEye_derivation bt ct.
Proof.
  rewrite !solver_inputs_estimateHandEye. split; reflexivity.
Qed.

(* ------------------------------------------------------------------ *)
(** ** The key loop: finalize, undo, capture *)

(** C2. Finalizing (['q']) with fewer than 5 relative motions, zero
    included, first logs the warning, then still calls the solver on the
    relative motions there are, reports and writes the result, and leaves
    the loop: the count check is advisory and the caller is warned. *)
Theorem finalize_few_motions_warns_and_solves (calibOpened : bool) (g : Globals) :
  (length (rvecsArm (motions g)) < 5)%nat ->
  let st := motions g in
  let '(resultAffine, summary) :=
    estimateHandEyeScrew (rvecsArm st) (tvecsArm st) (rvecsFiducial st) (tvecsFiducial st) in
  main_step (KeyQ calibOpened) g =
    Some (g,
          [EvLog (ROS_WARN "Number of calibration transform pairs < 5.");
           EvLog (ROS_INFO "Node Quit");
           EvLog (ROS_INFO "Calculating Calibration...");
           EvSolve (rvecsArm st) (tvecsArm st) (rvecsFiducial st) (tvecsFiducial st);
           EvReport (EETFname g) (cameraTFname g) resultAffine;
           EvWriteCalib (writeCalibration calibOpened resultAffine summary)],
          true).
Proof.
  intros Hlt. simpl. unfold finalize.
  destruct (estimateHandEyeScrew _ _ _ _) as [r s].
  assert (Hb : (length (rvecsArm (motions g)) <? 5)%nat = true) by (apply Nat.ltb_lt; exact Hlt).
  rewrite Hb. reflexivity.
Qed.

(** C3 (what the code does). Pressing ['d'] on the empty store at the start
    of a session calls [pop_back] on empty vectors, which is undefined
    behaviour; so is ['d'] right after the first capture, because the first
    capture pushes no relative motion. *)
Theorem undo_empty_store_undefined (eeName camName : string) (camT eeT : Tf) (opened : bool) :
  main_step KeyD (globals_init eeName camName) = None /\
  run [KeyS (Some camT) (Some eeT) opened; KeyD] (globals_init eeName camName) = None.
Proof. split; [reflexivity | destruct opened; reflexivity]. Qed.

(** C4. When either transform lookup of [addFrame] times out, the capture
    is dropped: the globals (pose pairs, relative motions, reference state)
    are unchanged and the warning is logged; the ['s'] branch then keeps
    these unchanged globals. *)
Theorem addFrame_lookup_failure_unchanged (cam ee : option Tf) (opened : bool) (g : Globals) :
  cam = None \/ ee = None ->
  fst (addFrame cam ee g) = g /\
  last (snd (addFrame cam ee g)) = Some (ROS_WARN "Fail to get one/both of needed TF transform") /\
  (forall out, main_step (KeyS cam ee opened) g = Some out -> fst (fst out) = g).
Proof.
  intros Hfail.
  assert (Ha : addFrame cam ee g =
     (g, (match cam with Some _ => [] | None => [ROS_WARN "Fail to Cam TF transform between %s to %s"] end)
         ++ (match ee with Some _ => [] | None => [ROS_WARN "Fail to EE TF transform between %s to %s"] end)
         ++ [ROS_WARN "Fail to get one/both of needed TF transform"])).
  { unfold addFrame. destruct Hfail as [-> | ->]; [destruct ee|]; reflexivity. }
  rewrite Ha. split; [reflexivity|]. split.
  - rewrite !app_assoc. apply last_snoc.
  - intros out Hstep. simpl in Hstep. rewrite Ha in Hstep.
    destruct (writeTransformPairsToFile _ _ _) as [[code file]|]; [|discriminate].
    injection Hstep as <-. reflexivity.
Qed.

(** C7. When the calibration file opens, [writeCalibration] writes exactly
    the fields of the result schema, in this order: [handToEyeTF] is
    [tx,ty,tz,qx,qy,qz,qw] of the transform (quaternion of its rotation),
    [handToEyeTransform] its 4x4 matrix, [change_cost] is
    [initial_cost - final_cost] and [num_iteration] is
    [num_successful_iteration + num_unsuccessful_iteration]. *)
Theorem writeCalibration_schema (resultAffine : Aff) (summary : Summary) :
  let q := quat_of_mat (aff_rotation resultAffine) in
  let tr := aff_translation resultAffine in
  writeCalibration true resultAffine summary =
    [("handToEyeTF", NRow [vx tr; vy tr; vz tr; qx q; qy q; qz q; qw q]);
     ("handToEyeTransform", NMat4 resultAffine);
     ("initial_cost", NReal (initial_cost summary));
     ("final_cost", NReal (final_cost summary));
     ("change_cost", NReal (initial_cost summary - final_cost summary));
     ("termination_type", NInt (termination_type summary));
     ("num_successful_iteration", NInt (num_successful_steps summary));
     ("num_unsuccessful_iteration", NInt (num_unsuccessful_steps summary));
     ("num_iteration",
       NInt (num_successful_steps summary + num_unsuccessful_steps summary)%Z)] /\
  map fst (writeCalibration true resultAffine summary) =
    ["handToEyeTF"; "handToEyeTransform"; "initial_cost"; "final_cost";
     "change_cost"; "termination_type"; "num_successful_iteration";
     "num_unsuccessful_iteration"; "num_iteration"].
Proof.
  simpl. rewrite (Z.add_comm (num_unsuccessful_steps summary)). split; reflexivity.
Qed.

(* ------------------------------------------------------------------ *)
(** ** The capture invariant of the key loop *)

Lemma pop_back_some {A} (l l' : list A) :
  pop_back l = Some l' -> exists x, l = l' ++ [x].
Proof.
  destruct l as [|a l]; [discriminate|]. intros H. injection H as <-.
  exists (List.last (a :: l) a). apply app_removelast_last. discriminate.
Qed.

Lemma undo_keeps_reference (g g' : Globals) (evs : list Event) :
  undo g = Some (g', evs) ->
  firstTransform (motions g') = firstTransform (motions g) /\
  firstEEInverse (motions g') = firstEEInverse (motions g) /\
  firstCamInverse (motions g') = firstCamInverse (motions g).
Proof.
  unfold undo.
  destruct (pop_back (rvecsArm (motions g))), (pop_back (tvecsArm (motions g))),
    (pop_back (rvecsFiducial (motions g))), (pop_back (tvecsFiducial (motions g))),
    (pop_back (baseToTip g)), (pop_back (cameraToTag g)); try discriminate.
  intros H. injection H as <- _. simpl. auto.
Qed.

Lemma undo_inv (g g' : Globals) (evs : list Event) :
  capture_inv g -> undo g = Some (g', evs) -> capture_inv g'.
Proof.
  intros [Hlen Hder]. unfold undo.
  destruct (pop_back (rvecsArm (motions g))) as [rA|] eqn:E1; [|discriminate].
  destruct (pop_back (tvecsArm (motions g))) as [tA|] eqn:E2; [|discriminate].
  destruct (pop_back (rvecsFiducial (motions g))) as [rF|] eqn:E3; [|discriminate].
  destruct (pop_back (tvecsFiducial (motions g))) as [tF|] eqn:E4; [|discriminate].
  destruct (pop_back (baseToTip g)) as [bt|] eqn:E5; [|discriminate].
  destruct (pop_back (cameraToTag g)) as [ct|] eqn:E6; [|discriminate].
  intros H. injection H as <- _.
  apply pop_back_some in E1 as [x1 E1]. apply pop_back_some in E2 as [x2 E2].
  apply pop_back_some in E3 as [x3 E3]. apply pop_back_some in E4 as [x4 E4].
  apply pop_back_some in E5 as [e E5]. apply pop_back_some in E6 as [c E6].
  rewrite E5, E6 in Hder, Hlen. rewrite !length_app in Hlen. simpl in Hlen.
  assert (Hl : length bt = length ct) by lia.
  rewrite derive_loop_snoc in Hder by exact Hl.
  destruct (derive_loop motions_init bt ct) as [s0|] eqn:Hs0; [|discriminate].
  injection Hder as Hm. unfold set_capture, capture_inv. simpl. split; [exact Hl|].
  rewrite Hs0. f_equal.
  destruct (firstTransform s0) eqn:Hf.
  - destruct (derive_loop_first_true _ _ _ _ Hs0 Hf) as [_ ->].
    unfold push_pair in Hm. simpl in Hm. rewrite <- Hm in E1. simpl in E1.
    destruct rA; discriminate.
  - unfold push_pair in Hm. rewrite Hf in Hm. rewrite <- Hm in E1, E2, E3, E4 |- *.
    simpl in *. apply app_inj_tail in E1 as [<- _]. apply app_inj_tail in E2 as [<- _].
    apply app_inj_tail in E3 as [<- _]. apply app_inj_tail in E4 as [<- _].
    destruct s0; simpl in *; subst; reflexivity.
Qed.

Lemma main_step_inv (c : Cmd) (g g' : Globals) (evs : list Event) (b : bool) :
  capture_inv g -> main_step c g = Some (g', evs, b) -> capture_inv g'.
Proof.
  intros Hinv. destruct c as [cam ee recordOpened| |calibOpened|key]; simpl.
  - destruct (addFrame cam ee g) as [g1 logs] eqn:Ha.
    destruct (writeTransformPairsToFile _ _ _) as [[code file]|]; [|discriminate].
    intros H. injection H as <- _ _.
    unfold addFrame in Ha. destruct ee as [eeT|], cam as [camT|];
      injection Ha as <- _; try exact Hinv.
    destruct Hinv as [Hlen Hder]. unfold capture_inv, set_capture. simpl.
    rewrite !length_app, Hlen. split; [reflexivity|].
    rewrite derive_loop_snoc by exact Hlen. rewrite Hder. reflexivity.
  - destruct (undo g) as [[g1 evs1]|] eqn:Hu; [|discriminate].
    intros H. injection H as <- _ _. exact (undo_inv _ _ _ Hinv Hu).
  - intros H. injection H as <- _ _. exact Hinv.
  - intros H. injection H as <- _ _. exact Hinv.
Qed.

Lemma run_inv (cs : list Cmd) (g g' : Globals) (evs : list Event) :
  capture_inv g -> run cs g = Some (g', evs) -> capture_inv g'.
Proof.
  revert g evs. induction cs as [|c cs IH]; intros g evs Hinv; simpl.
  - intros H. injection H as <- _. exact Hinv.
  - destruct (main_step c g) as [[[g1 evs1] []]|] eqn:Hs; try discriminate.
    + intros H. injection H as <- _. exact (main_step_inv _ _ _ _ _ Hinv Hs).
    + destruct (run cs g1) as [[g2 evs2]|] eqn:Hr; [|discriminate].
      intros H. injection H as <- _.
      exact (IH _ _ (main_step_inv _ _ _ _ _ Hinv Hs) Hr).
Qed.

(** C9 (as the code does it).  Undo never touches [firstTransform],
    [firstEEInverse] or [firstCamInverse].  In every run of the key loop
    from the start of a session that stays clear of undefined behaviour,
    the reference is the inverse of the pair stored at index 0 and the
    relative-motion vectors are exactly the derivation of the stored pairs:
    [N-1] entries for [N >= 1] stored pairs, none (and the initial
    reference state) for [N = 0]; the buffers never leave the [N]/[N-1]
    relation.  (Undoing the first capture pops the empty relative-motion
    vectors, which is undefined behaviour.) *)
Theorem undo_reference_and_capture_invariant :
  (forall (g g' : Globals) (evs : list Event), undo g = Some (g', evs) ->
     firstTransform (motions g') = firstTransform (motions g) /\
     firstEEInverse (motions g') = firstEEInverse (motions g) /\
     firstCamInverse (motions g') = firstCamInverse (motions g)) /\
  (forall (cs : list Cmd) (eeName camName : string) (g : Globals) (evs : list Event),
     run cs (globals_init eeName camName) = Some (g, evs) ->
     derive_loop motions_init (baseToTip g) (cameraToTag g) = Some (motions g) /\
     length (baseToTip g) = length (cameraToTag g) /\
     (baseToTip g = [] -> motions g = motions_init) /\
     (forall (b0 c0 : Aff) (bs cs' : list Aff),
        baseToTip g = b0 :: bs -> cameraToTag g = c0 :: cs' ->
        firstTransform (motions g) = false /\
        firstEEInverse (motions g) = aff_inverse b0 /\
        firstCamInverse (motions g) = aff_inverse c0 /\
        rvecsArm (motions g) = map (rel_rot (aff_inverse b0)) bs /\
        tvecsArm (motions g) = map (rel_trans (aff_inverse b0)) bs /\
        rvecsFiducial (motions g) = map (rel_rot (aff_inverse c0)) cs' /\
        tvecsFiducial (motions g) = map (rel_trans (aff_inverse c0)) cs' /\
        length (rvecsArm (motions g)) = length bs /\
        length (rvecsFiducial (motions g)) = length bs)).
Proof.
  split; [exact undo_keeps_reference|].
  intros cs eeName camName g evs Hrun.
  assert (Hinit : capture_inv (globals_init eeName camName)) by (split; reflexivity).
  destruct (run_inv _ _ _ _ Hinit Hrun) as [Hlen Hder].
  split; [exact Hder|]. split; [exact Hlen|]. split.
  - intros Hbt. rewrite Hbt in Hder, Hlen. destruct (cameraToTag g); [|discriminate].
    simpl in Hder. injection Hder as <-. reflexivity.
  - intros b0 c0 bs cs' Hb Hc. rewrite Hb, Hc in Hder. rewrite Hb, Hc in Hlen.
    simpl in Hlen. rewrite derive_loop_cons in Hder by lia.
    injection Hder as <-. simpl. rewrite !length_map. repeat split; lia.
Qed.

(* ------------------------------------------------------------------ *)
(** ** The persisted pose-pair file *)

Lemma string_app_inj_l (p s1 s2 : string) :
  String.append p s1 = String.append p s2 -> s1 = s2.
Proof. induction p as [|c p IH]; simpl; [auto|]. intros H. injection H as H. exact (IH H). Qed.

Lemma key_T1_inj (i j : nat) :
  String.append "T1_" (pretty i) = String.append "T1_" (pretty j) -> i = j.
Proof. intros H. apply string_app_inj_l in H. exact (pretty_nat_inj i j H). Qed.

Lemma key_T2_inj (i j : nat) :
  String.append "T2_" (pretty i) = String.append "T2_" (pretty j) -> i = j.
Proof. intros H. apply string_app_inj_l in H. exact (pretty_nat_inj i j H). Qed.

Lemma key_T1_T2 (i j : nat) :
  String.append "T1_" (pretty i) <> String.append "T2_" (pretty j).
Proof. generalize (pretty i) (pretty j). intros s1 s2 E. discriminate E. Qed.

Lemma key_frameCount_T1 (i : nat) : "frameCount" <> String.append "T1_" (pretty i).
Proof. generalize (pretty i). intros s E. discriminate E. Qed.

Lemma key_frameCount_T2 (i : nat) : "frameCount" <> String.append "T2_" (pretty i).
Proof. generalize (pretty i). intros s E. discriminate E. Qed.

Lemma fs_lookup_app (k : string) (l1 l2 : FileStore) :
  fs_lookup k (l1 ++ l2) =
    match fs_lookup k l1 with Some v => Some v | None => fs_lookup k l2 end.
Proof.
  induction l1 as [|[k' v] l1 IH]; simpl; [reflexivity|].
  destruct (String.eqb k k'); [reflexivity | exact IH].
Qed.

Lemma fs_lookup_cons_ne (k k' : string) (v : Node) (l : FileStore) :
  k <> k' -> fs_lookup k ((k', v) :: l) = fs_lookup k l.
Proof. intros Hne. simpl. apply String.eqb_neq in Hne. rewrite Hne. reflexivity. Qed.

Lemma fs_lookup_cons_eq (k : string) (v : Node) (l : FileStore) :
  fs_lookup k ((k, v) :: l) = Some v.
Proof. simpl. rewrite (proj2 (String.eqb_eq k k) eq_refl). reflexivity. Qed.

Lemma write_pairs_some (i : nat) (t1 t2 : list Aff) :
  length t1 = length t2 -> exists rest, write_pairs i t1 t2 = Some rest.
Proof.
  revert i t2. induction t1 as [|a t1 IH]; intros i [|b t2] Hlen;
    simpl in Hlen; try discriminate; simpl.
  - eauto.
  - destruct (IH (S i) t2) as [rest ->]; [lia|]. eauto.
Qed.

Lemma read_write_pairs (t1 t2 : list Aff) (i : nat) (rest pre : FileStore) :
  length t1 = length t2 ->
  write_pairs i t1 t2 = Some rest ->
  (forall j, (i <= j)%nat ->
     fs_lookup (String.append "T1_" (pretty j)) pre = None /\
     fs_lookup (String.append "T2_" (pretty j)) pre = None) ->
  read_pairs (pre ++ rest) i (length t1) = Some (t1, t2).
Proof.
  revert i t2 rest pre. induction t1 as [|a t1 IH]; intros i [|b t2] rest pre Hlen Hw Hpre;
    simpl in Hlen; try discriminate; [reflexivity|].
  simpl in Hw. destruct (write_pairs (S i) t1 t2) as [rest'|] eqn:Hw'; [|discriminate].
  injection Hw as <-. destruct (Hpre i (le_n i)) as [H1 H2].
  simpl. rewrite !fs_lookup_app, H1, H2.
  rewrite fs_lookup_cons_eq, fs_lookup_cons_ne by apply not_eq_sym, key_T1_T2.
  rewrite fs_lookup_cons_eq. simpl.
  replace (pre ++ (String.append "T1_" (pretty i), NMat4 a)
               :: (String.append "T2_" (pretty i), NMat4 b) :: rest')
    with ((pre ++ [(String.append "T1_" (pretty i), NMat4 a);
                   (String.append "T2_" (pretty i), NMat4 b)]) ++ rest')
    by (rewrite <- app_assoc; reflexivity).
  rewrite (IH (S i) t2 rest'); [reflexivity | lia | exact Hw' |].
  intros j Hj. destruct (Hpre j ltac:(lia)) as [G1 G2].
  rewrite !fs_lookup_app, G1, G2.
  assert (Hij : i <> j) by lia.
  rewrite !fs_lookup_cons_ne; try reflexivity.
  all: first [ split; reflexivity | apply key_T1_T2 | apply not_eq_sym, key_T1_T2
             | intros E; apply Hij; symmetry;
               first [exact (key_T1_inj _ _ E) | exact (key_T2_inj _ _ E)] ].
Qed.

Lemma read_pairs_length (fs : FileStore) (i n : nat) (l1 l2 : list Aff) :
  read_pairs fs i n = Some (l1, l2) -> length l1 = n /\ length l2 = n.
Proof.
  revert i l1 l2. induction n as [|n IH]; intros i l1 l2; simpl.
  - intros H. injection H as <- <-. auto.
  - destruct (read_aff (fs_lookup (String.append "T1_" (pretty i)) fs)),
      (read_aff (fs_lookup (String.append "T2_" (pretty i)) fs)),
      (read_pairs fs (S i) n) as [[k1 k2]|] eqn:Hr; try discriminate.
    intros H. injection H as <- <-. destruct (IH _ _ _ Hr). simpl. auto.
Qed.

(** C6. Writing a pose-pair sequence (equal-length [t1], [t2]) with
    [writeTransformPairsToFile] to a file that opens, then reading that file
    with [readTransformPairsFromFile] into empty vectors, returns [0] both
    times and gives back exactly [t1] and [t2]: the same number of pairs
    and every matrix unchanged (so within any tolerance, 1e-9 included). *)
Theorem pose_pair_file_roundtrip (t1 t2 : list Aff) :
  length t1 = length t2 ->
  exists file,
    writeTransformPairsToFile true t1 t2 = Some (0%Z, file) /\
    readTransformPairsFromFile (Some file) [] [] = Some (0%Z, t1, t2).
Proof.
  intros Hlen. destruct (write_pairs_some 0 t1 t2 Hlen) as [rest Hw].
  unfold writeTransformPairsToFile. rewrite Hw. eexists. split; [reflexivity|].
  unfold readTransformPairsFromFile. rewrite fs_lookup_cons_eq. simpl read_int.
  rewrite Nat2Z.id.
  assert (HR : read_pairs ([("frameCount", NInt (Z.of_nat (length t1)))] ++ rest) 0 (length t1)
                = Some (t1, t2)).
  { apply read_write_pairs; [exact Hlen | exact Hw |].
    intros j _. rewrite !fs_lookup_cons_ne by (apply not_eq_sym;
      first [apply key_frameCount_T1 | apply key_frameCount_T2]).
    split; reflexivity. }
  cbn [app] in HR. rewrite HR. reflexivity.
Qed.

(** C10. [readTransformPairsFromFile] appends: on a file it cannot open it
    returns [1] and leaves [t1], [t2] as they were; on an opened file, when
    it returns, it returns [0] and the result is [t1] and [t2] unchanged
    followed by the [frameCount] loaded pairs ([frameCount] as read from the
    file, none when it is negative), the same pairs whatever [t1], [t2]. *)
Theorem readTransformPairsFromFile_appends :
  (forall t1 t2 : list Aff, readTransformPairsFromFile None t1 t2 = Some (1%Z, t1, t2)) /\
  (forall (fs : FileStore) (t1 t2 t1' t2' : list Aff) (code : Z),
     readTransformPairsFromFile (Some fs) t1 t2 = Some (code, t1', t2') ->
     let n := Z.to_nat (read_int (fs_lookup "frameCount" fs)) in
     code = 0%Z /\
     exists l1 l2,
       read_pairs fs 0 n = Some (l1, l2) /\
       t1' = t1 ++ l1 /\ t2' = t2 ++ l2 /\ length l1 = n /\ length l2 = n).
Proof.
  split; [reflexivity|].
  intros fs t1 t2 t1' t2' code H n. unfold readTransformPairsFromFile in H. fold n in H.
  destruct (read_pairs fs 0 n) as [[l1 l2]|] eqn:Hr; [|discriminate].
  injection H as <- <- <-. split; [reflexivity|].
  destruct (read_pairs_length _ _ _ _ _ Hr). exists l1, l2. auto.
Qed.

(* ------------------------------------------------------------------ *)
(** ** Further properties of the pose-pair file and the key loop *)

Lemma reachable_inv (g : Globals) : reachable g -> capture_inv g.
Proof.
  intros (cs & eeName & camName & evs & H).
  assert (Hinit : capture_inv (globals_init eeName camName)) by (split; reflexivity).
  exact (run_inv _ _ _ _ Hinit H).
Qed.

Lemma write_pairs_length (i : nat) (t1 t2 : list Aff) (rest : FileStore) :
  write_pairs i t1 t2 = Some rest -> length rest = (2 * length t1)%nat.
Proof.
  revert i t2 rest. induction t1 as [|a t1 IH]; intros i t2 rest Hw; simpl in Hw.
  - injection Hw as <-. reflexivity.
  - destruct t2 as [|b t2]; [discriminate|].
    destruct (write_pairs (S i) t1 t2) as [rest'|] eqn:Hw'; [|discriminate].
    injection Hw as <-. simpl. rewrite (IH _ _ _ Hw'). lia.
Qed.

Lemma write_pairs_keys (i : nat) (t1 t2 : list Aff) (rest : FileStore) :
  write_pairs i t1 t2 = Some rest ->
  forall k, k ∈ map fst rest -> exists j, (i <= j)%nat /\ (k = key_T1 j \/ k = key_T2 j).
Proof.
  revert i t2 rest. induction t1 as [|a t1 IH]; intros i t2 rest Hw; simpl in Hw.
  - injection Hw as <-. intros k Hk. apply elem_of_nil in Hk. contradiction.
  - destruct t2 as [|b t2]; [discriminate|].
    destruct (write_pairs (S i) t1 t2) as [rest'|] eqn:Hw'; [|discriminate].
    injection Hw as <-. intros k Hk. simpl in Hk. rewrite !elem_of_cons in Hk.
    destruct Hk as [-> | [-> | Hk]].
    + exists i. split; [lia | left; reflexivity].
    + exists i. split; [lia | right; reflexivity].
    + destruct (IH _ _ _ Hw' k Hk) as (j & Hj & Hkj). exists j. split; [lia | exact Hkj].
Qed.

Lemma write_pairs_nodup (i : nat) (t1 t2 : list Aff) (rest : FileStore) :
  write_pairs i t1 t2 = Some rest -> NoDup (map fst rest).
Proof.
  revert i t2 rest. induction t1 as [|a t1 IH]; intros i t2 rest Hw; simpl in Hw.
  - injection Hw as <-. constructor.
  - destruct t2 as [|b t2]; [discriminate|].
    destruct (write_pairs (S i) t1 t2) as [rest'|] eqn:Hw'; [|discriminate].
    injection Hw as <-. simpl.
    pose proof (write_pairs_keys _ _ _ _ Hw') as Hk.
    constructor.
    + rewrite elem_of_cons. intros [E | Hin].
      * exact (key_T1_T2 i i E).
      * destruct (Hk _ Hin) as (j & Hj & [E | E]).
        -- apply key_T1_inj in E. lia.
        -- exact (key_T1_T2 i j E).
    + constructor; [|exact (IH _ _ _ Hw')].
      intros Hin. destruct (Hk _ Hin) as (j & Hj & [E | E]).
      * exact (key_T1_T2 j i (eq_sym E)).
      * apply key_T2_inj in E. lia.
Qed.

Lemma write_pairs_extra (i : nat) (t1 t2 extra : list Aff) :
  length t1 = length t2 -> write_pairs i t1 (t2 ++ extra) = write_pairs i t1 t2.
Proof.
  revert i t2. induction t1 as [|a t1 IH]; intros i [|b t2] Hlen;
    simpl in Hlen; try discriminate; [reflexivity|].
  simpl. rewrite IH by lia. reflexivity.
Qed.

Lemma write_pairs_short (i : nat) (t1 t2 : list Aff) :
  (length t2 < length t1)%nat -> write_pairs i t1 t2 = None.
Proof.
  revert i t2. induction t1 as [|a t1 IH]; intros i [|b t2] Hlen;
    simpl in Hlen; try lia; [reflexivity|].
  simpl. rewrite IH by lia. reflexivity.
Qed.

Lemma write_file_reads_back (t1 t2 : list Aff) (code : Z) (file : FileStore) :
  length t1 = length t2 ->
  writeTransformPairsToFile true t1 t2 = Some (code, file) ->
  code = 0%Z /\
  forall p1 p2, readTransformPairsFromFile (Some file) p1 p2 = Some (0%Z, p1 ++ t1, p2 ++ t2).
Proof.
  intros Hlen Hwr. destruct (write_pairs_some 0 t1 t2 Hlen) as [rest Hw].
  unfold writeTransformPairsToFile in Hwr. rewrite Hw in Hwr. injection Hwr as <- <-.
  split; [reflexivity|]. intros p1 p2.
  unfold readTransformPairsFromFile. rewrite fs_lookup_cons_eq. simpl read_int.
  rewrite Nat2Z.id.
  assert (HR : read_pairs ([("frameCount", NInt (Z.of_nat (length t1)))] ++ rest) 0 (length t1)
                = Some (t1, t2)).
  { apply read_write_pairs; [exact Hlen | exact Hw |].
    intros j _. rewrite !fs_lookup_cons_ne by (apply not_eq_sym;
      first [apply key_frameCount_T1 | apply key_frameCount_T2]).
    split; reflexivity. }
  cbn [app] in HR. rewrite HR. reflexivity.
Qed.


Lemma pop_back_snoc {A} (l : list A) (x : A) : pop_back (l ++ [x]) = Some l.
Proof.
  unfold pop_back. destruct (l ++ [x]) as [|a l'] eqn:E.
  - destruct l; discriminate.
  - rewrite <- E. f_equal. apply removelast_last.
Qed.

Lemma derive_loop_extra (st : MotionState) (bt ct extra : list Aff) :
  length bt = length ct ->
  derive_loop st bt (ct ++ extra) = derive_loop st bt ct /\
  derive_loop_log st bt (ct ++ extra) = derive_loop_log st bt ct.
Proof.
  revert st ct. induction bt as [|e bt IH]; intros st [|c ct] Hlen;
    simpl in Hlen; try discriminate; [split; reflexivity|].
  simpl. destruct (IH (push_pair st e c) ct ltac:(lia)) as [-> ->]. split; reflexivity.
Qed.

Lemma derive_loop_short (st : MotionState) (bt ct : list Aff) :
  (length ct < length bt)%nat -> derive_loop st bt ct = None.
Proof.
  revert st ct. induction bt as [|e bt IH]; intros st [|c ct] Hlen;
    simpl in Hlen; try lia; [reflexivity|].
  simpl. apply IH. lia.
Qed.

(** X1. Writing [N] pose pairs (equal-length [t1], [t2]) to a file that
    opens returns [0] and writes [1 + 2N] entries under pairwise distinct
    keys, the first being [frameCount] holding [N]. *)
Theorem writeTransformPairsToFile_layout (t1 t2 : list Aff) :
  length t1 = length t2 ->
  exists rest,
    writeTransformPairsToFile true t1 t2 =
      Some (0%Z, ("frameCount", NInt (Z.of_nat (length t1))) :: rest) /\
    length rest = (2 * length t1)%nat /\
    NoDup (map fst (("frameCount", NInt (Z.of_nat (length t1))) :: rest)).
Proof.
  intros Hlen. destruct (write_pairs_some 0 t1 t2 Hlen) as [rest Hw].
  exists rest. unfold writeTransformPairsToFile. rewrite Hw.
  split; [reflexivity|]. split; [exact (write_pairs_length _ _ _ _ Hw)|].
  simpl. constructor; [|exact (write_pairs_nodup _ _ _ _ Hw)].
  intros Hin. destruct (write_pairs_keys _ _ _ _ Hw _ Hin) as (j & _ & [E | E]).
  - exact (key_frameCount_T1 j E).
  - exact (key_frameCount_T2 j E).
Qed.

(** X2. [writeTransformPairsToFile] walks [t1] only: entries of [t2] past
    the length of [t1] are not written, and a [t2] shorter than [t1] (read
    past its end, undefined behaviour) gives no defined file on an opened
    file. *)
Theorem writeTransformPairsToFile_t2_length (opened : bool) (t1 t2 extra : list Aff) :
  (length t1 = length t2 ->
     writeTransformPairsToFile opened t1 (t2 ++ extra) = writeTransformPairsToFile opened t1 t2) /\
  ((length t2 < length t1)%nat -> writeTransformPairsToFile true t1 t2 = None).
Proof.
  split.
  - intros Hlen. unfold writeTransformPairsToFile. rewrite write_pairs_extra by exact Hlen.
    reflexivity.
  - intros Hlt. unfold writeTransformPairsToFile. rewrite write_pairs_short by exact Hlt.
    reflexivity.
Qed.

(** X3. Reading a file that opens but has no [frameCount] entry, or an
    integer [frameCount] that is zero or negative, returns [0] and appends
    nothing to [t1] and [t2]. *)
Theorem readTransformPairsFromFile_no_count (fs : FileStore) (t1 t2 : list Aff) :
  fs_lookup "frameCount" fs = None \/
  (exists z, fs_lookup "frameCount" fs = Some (NInt z) /\ (z <= 0)%Z) ->
  readTransformPairsFromFile (Some fs) t1 t2 = Some (0%Z, t1, t2).
Proof.
  intros Hc.
  assert (H0 : Z.to_nat (read_int (fs_lookup "frameCount" fs)) = 0%nat).
  { destruct Hc as [-> | (z & -> & Hz)]; simpl; lia. }
  unfold readTransformPairsFromFile. rewrite H0. simpl. rewrite !app_nil_r. reflexivity.
Qed.


(** X5. [estimateHandEye] walks [baseToTip] only: entries of [camToTag]
    past the length of [baseToTip] change nothing in its output, and a
    [camToTag] shorter than [baseToTip] (read past its end, undefined
    behaviour) gives no defined output. *)
Theorem estimateHandEye_camToTag_length (eeName camName : string) (bt ct extra : list Aff) :
  (length bt = length ct ->
     estimateHandEye eeName camName bt (ct ++ extra) = estimateHandEye eeName camName bt ct) /\
  ((length ct < length bt)%nat -> estimateHandEye eeName camName bt ct = None).
Proof.
  split.
  - intros Hlen. destruct (derive_loop_extra motions_init bt ct extra Hlen) as [E1 E2].
    unfold estimateHandEye, estimateHandEye_derivation. rewrite E1, E2. reflexivity.
  - intros Hlt. unfold estimateHandEye, estimateHandEye_derivation.
    rewrite derive_loop_short by exact Hlt. reflexivity.
Qed.

(** X6. From any state the key loop reaches with at least one stored
    pair, a capture (['s'] with both lookups succeeding) appends the pair,
    and an undo (['d']) right after it restores exactly the state before
    the capture, logging as count the number of pairs left. *)
Theorem capture_then_undo_restores (g : Globals) (camT eeT : Tf) (recordOpened : bool) :
  reachable g -> baseToTip g <> [] ->
  exists g1 evs1,
    main_step (KeyS (Some camT) (Some eeT) recordOpened) g = Some (g1, evs1, false) /\
    baseToTip g1 = baseToTip g ++ [transformTFToEigen eeT] /\
    cameraToTag g1 = cameraToTag g ++ [transformTFToEigen camT] /\
    main_step KeyD g1 =
      Some (g, [EvLog (ROS_INFO_COUNT "Deleted last frame transformation. Number of Current Transformations: %u"
                         (length (baseToTip g)))], false).
Proof.
  intros Hr Hne. destruct (reachable_inv g Hr) as [Hlen Hder].
  destruct g as [n1 n2 m bt ct]; simpl in *.
  destruct bt as [|b0 bs]; [contradiction|]. destruct ct as [|c0 cs]; [discriminate|].
  simpl in Hlen. rewrite derive_loop_cons in Hder by lia. injection Hder as <-.
  set (eA := transformTFToEigen eeT). set (cA := transformTFToEigen camT).
  assert (Hw : exists out, writeTransformPairsToFile recordOpened
                 ((b0 :: bs) ++ [eA]) ((c0 :: cs) ++ [cA]) = Some out).
  { destruct recordOpened; [|eexists; reflexivity].
    destruct (write_pairs_some 0 ((b0 :: bs) ++ [eA]) ((c0 :: cs) ++ [cA])) as [rest Hrest].
    { rewrite !length_app. simpl. lia. }
    unfold writeTransformPairsToFile. rewrite Hrest. eexists. reflexivity. }
  destruct Hw as [[code file] Hw].
  exists (mkGlobals n1 n2
            (push_pair (mkMotionState false (aff_inverse b0) (aff_inverse c0)
                          (map (rel_rot (aff_inverse b0)) bs)
                          (map (rel_trans (aff_inverse b0)) bs)
                          (map (rel_rot (aff_inverse c0)) cs)
                          (map (rel_trans (aff_inverse c0)) cs)) eA cA)
            ((b0 :: bs) ++ [eA]) ((c0 :: cs) ++ [cA])).
  eexists. split; [|split; [reflexivity | split; [reflexivity|]]].
  - unfold main_step, addFrame. cbn zeta. unfold set_capture. cbn [baseToTip cameraToTag].
    fold eA cA. rewrite Hw. reflexivity.
  - unfold main_step, undo, set_capture, push_pair. cbn [motions baseToTip cameraToTag
      firstTransform firstEEInverse firstCamInverse rvecsArm tvecsArm rvecsFiducial
      tvecsFiducial].
    rewrite !pop_back_snoc. rewrite !length_app, length_map. simpl length.
    repeat f_equal. lia.
Qed.

(** X7. In every state the key loop reaches, the pose-pair file an ['s']
    writes to a file that opens (the last output of the step) reads back,
    with [readTransformPairsFromFile] into empty vectors, as exactly the
    stored pairs after the step, whether or not the capture succeeded. *)
Theorem capture_record_file_reads_back (g g' : Globals) (cam ee : option Tf)
  (evs : list Event) (b : bool) :
  reachable g -> main_step (KeyS cam ee true) g = Some (g', evs, b) ->
  exists file,
    last evs = Some (EvWritePairs 0%Z file) /\
    readTransformPairsFromFile (Some file) [] [] = Some (0%Z, baseToTip g', cameraToTag g').
Proof.
  intros Hr Hs.
  destruct (main_step_inv _ _ _ _ _ (reachable_inv g Hr) Hs) as [Hlen _].
  unfold main_step in Hs. destruct (addFrame cam ee g) as [g1 logs].
  destruct (writeTransformPairsToFile true (baseToTip g1) (cameraToTag g1))
    as [[code file]|] eqn:Hw; [|discriminate].
  injection Hs as <- <- _.
  destruct (write_file_reads_back _ _ _ _ Hlen Hw) as [-> Hrd].
  exists file. split; [apply last_snoc | apply Hrd].
Qed.

(** X8. In load mode, a pose-pair file that cannot be opened is not an
    error: the solver is still called, on four empty motion vectors, and
    its result is reported and written as the calibration. *)
Theorem load_mode_unopened_file (eeName camName : string) (calibOpened : bool) :
  let '(result, summary) := estimateHandEyeScrew [] [] [] [] in
  main_load eeName camName None calibOpened =
    Some [EvSolve [] [] [] []; EvReport eeName camName result;
          EvWriteCalib (writeCalibration calibOpened result summary)].
Proof.
  unfold main_load, estimateHandEye. simpl.
  destruct (estimateHandEyeScrew [] [] [] []) as [r s]. reflexivity.
Qed.

(** X9. Loading, in load mode, the pose-pair file recorded from a state
    the key loop reaches hands the solver exactly the relative motions of
    that state, the ones ['q'] would hand it, and writes the same
    calibration ['q'] writes. *)
Theorem load_mode_matches_interactive (g : Globals) (file : FileStore)
  (eeName camName : string) (calibOpened : bool) :
  reachable g ->
  writeTransformPairsToFile true (baseToTip g) (cameraToTag g) = Some (0%Z, file) ->
  let st := motions g in
  let '(result, summary) :=
    estimateHandEyeScrew (rvecsArm st) (tvecsArm st) (rvecsFiducial st) (tvecsFiducial st) in
  exists logs,
    main_load eeName camName (Some file) calibOpened =
      Some (map EvLog logs ++
            [EvSolve (rvecsArm st) (tvecsArm st) (rvecsFiducial st) (tvecsFiducial st);
             EvReport eeName camName result;
             EvWriteCalib (writeCalibration calibOpened result summary)]) /\
    In (EvWriteCalib (writeCalibration calibOpened result summary))
       (finalize calibOpened g).
Proof.
  intros Hr Hw. destruct (reachable_inv g Hr) as [Hlen Hder].
  destruct (write_file_reads_back _ _ _ _ Hlen Hw) as [_ Hrd].
  cbv zeta. unfold main_load. rewrite Hrd. cbn [app].
  unfold estimateHandEye, estimateHandEye_derivation. rewrite Hder.
  unfold finalize.
  destruct (estimateHandEyeScrew (rvecsArm (motions g)) (tvecsArm (motions g))
              (rvecsFiducial (motions g)) (tvecsFiducial (motions g))) as [r s].
  exists (derive_loop_log motions_init (baseToTip g) (cameraToTag g)). split.
  - rewrite <- app_assoc. reflexivity.
  - apply in_or_app. right. simpl. auto.
Qed.


End Program.

(* ------------------------------------------------------------------ *)
(** ** The axis-angle conversion on a zero-angle rotation *)

(** C5. [eigenRotToEigenVector3dAngleAxis] on the identity rotation (a
    pure translation) returns the zero vector, with no NaN: the quaternion
    is [(0,0,0,1)] (the only division is [0.5 / 2]), its vector part has
    norm 0, so Eigen takes the [n == 0] branch (angle 0, axis (1,0,0))
    without dividing by the norm, and [0 * axis = (0,0,0)]. *)
Theorem eigenRotToEigenVector3dAngleAxis_identity_zero (atan2 : float -> float -> float) :
  quat_of_mat identity3 = mkQuat 0 0 0 1 /\
  angleAxis_of_mat atan2 identity3 = mkAngleAxis 0 (mkVec3 1 0 0) /\
  eigenRotToEigenVector3dAngleAxis atan2 identity3 = mkVec3 0 0 0 /\
  is_nan (vx (eigenRotToEigenVector3dAngleAxis atan2 identity3)) = false /\
  is_nan (vy (eigenRotToEigenVector3dAngleAxis atan2 identity3)) = false /\
  is_nan (vz (eigenRotToEigenVector3dAngleAxis atan2 identity3)) = false.
Proof. repeat split; vm_compute; reflexivity. Qed.

(* ------------------------------------------------------------------ *)
(** ** Witnesses and counterexamples on the concrete instance *)

Lemma estimateHandEye_derivation_relative_witness :
  length [tt] = length [tt] /\
  exists rA tA rF tF,
    estimateHandEye_derivation unit unit_mul unit_inverse unit_rotation unit_translation
      tt atan2_stub [tt; tt] [tt; tt] = Some (rA, tA, rF, tF) /\
    length rA = 1%nat.
Proof.
  split; [reflexivity|].
  destruct (estimateHandEye_derivation_relative unit unit_mul unit_inverse unit_rotation
              unit_translation tt atan2_stub tt tt [tt] [tt] eq_refl)
    as (rA & tA & rF & tF & H & Hl & _).
  exists rA, tA, rF, tF. split; [exact H | exact Hl].
Defined.

Lemma finalize_few_motions_warns_and_solves_witness :
  (length (rvecsArm unit (motions unit (globals_init unit tt "ee" "cam"))) < 5)%nat /\
  exists out,
    main_step unit unit_mul unit_inverse unit_rotation unit_translation unit unit_tf
      atan2_stub solver_stub (KeyQ unit true) (globals_init unit tt "ee" "cam") = Some out.
Proof.
  split; [simpl; lia|].
  pose proof (finalize_few_motions_warns_and_solves unit unit_mul unit_inverse unit_rotation
                unit_translation unit unit_tf atan2_stub solver_stub true
                (globals_init unit tt "ee" "cam") ltac:(simpl; lia)) as H.
  simpl in H. eexists. exact H.
Defined.

Lemma addFrame_lookup_failure_unchanged_witness :
  (None = @None unit \/ Some tt = None) /\
  fst (addFrame unit unit_mul unit_inverse unit_rotation unit_translation unit unit_tf
         atan2_stub None (Some tt) (globals_init unit tt "ee" "cam")) =
    globals_init unit tt "ee" "cam".
Proof.
  split; [left; reflexivity|].
  exact (proj1 (addFrame_lookup_failure_unchanged unit unit_mul unit_inverse unit_rotation
                  unit_translation unit unit_tf atan2_stub solver_stub None (Some tt) true
                  (globals_init unit tt "ee" "cam") (or_introl eq_refl))).
Defined.

Lemma undo_reference_and_capture_invariant_witness :
  exists g evs,
    run unit unit_mul unit_inverse unit_rotation unit_translation unit unit_tf atan2_stub
      solver_stub [KeyS unit (Some tt) (Some tt) true; KeyS unit (Some tt) (Some tt) true; KeyD unit]
      (globals_init unit tt "ee" "cam") = Some (g, evs) /\
    derive_loop unit unit_mul unit_inverse unit_rotation unit_translation atan2_stub
      (motions_init unit tt) (baseToTip unit g) (cameraToTag unit g) = Some (motions unit g).
Proof.
  destruct (run unit unit_mul unit_inverse unit_rotation unit_translation unit unit_tf
              atan2_stub solver_stub
              [KeyS unit (Some tt) (Some tt) true; KeyS unit (Some tt) (Some tt) true; KeyD unit]
              (globals_init unit tt "ee" "cam")) as [[g evs]|] eqn:E;
    [|vm_compute in E; discriminate E].
  exists g, evs. split; [reflexivity|].
  exact (proj1 (proj2 (undo_reference_and_capture_invariant unit unit_mul unit_inverse
                          unit_rotation unit_translation tt unit unit_tf atan2_stub solver_stub)
                 _ "ee" "cam" g evs E)).
Defined.

(** C9, counterexample: a capture followed by undo from the start of a
    session has no defined outcome (the undo pops the empty relative-motion
    vectors), so there is no state in which the reference survives the
    removed pair with diverged buffer sizes. *)
Lemma undo_first_capture_counterexample :
  ~ exists g evs,
      run unit unit_mul unit_inverse unit_rotation unit_translation unit unit_tf atan2_stub
        solver_stub [KeyS unit (Some tt) (Some tt) true; KeyD unit]
        (globals_init unit tt "ee" "cam") = Some (g, evs).
Proof. intros (g & evs & H). vm_compute in H. discriminate H. Qed.

Lemma pose_pair_file_roundtrip_witness :
  length [tt; tt] = length [tt; tt] /\
  exists file,
    writeTransformPairsToFile unit true [tt; tt] [tt; tt] = Some (0%Z, file) /\
    readTransformPairsFromFile unit tt cvRound_stub (Some file) [] [] = Some (0%Z, [tt; tt], [tt; tt]).
Proof.
  split; [reflexivity|].
  exact (pose_pair_file_roundtrip unit tt cvRound_stub [tt; tt] [tt; tt] eq_refl).
Defined.

Lemma readTransformPairsFromFile_appends_witness :
  exists l1 l2,
    readTransformPairsFromFile unit tt cvRound_stub
      (Some [("frameCount", NInt unit 1); ("T1_0", NMat4 unit tt); ("T2_0", NMat4 unit tt)])
      [tt] [tt] = Some (0%Z, [tt] ++ l1, [tt] ++ l2) /\ length l1 = 1%nat.
Proof.
  destruct (proj2 (readTransformPairsFromFile_appends unit tt cvRound_stub)
              [("frameCount", NInt unit 1); ("T1_0", NMat4 unit tt); ("T2_0", NMat4 unit tt)]
              [tt] [tt] [tt; tt] [tt; tt] 0%Z eq_refl)
    as (_ & l1 & l2 & _ & E1 & E2 & L1 & _).
  exists l1, l2. rewrite <- E1, <- E2. split; [reflexivity | exact L1].
Defined.

(* ------------------------------------------------------------------ *)
(** ** Witnesses of the further properties *)

(** The state after two captures on the concrete instance. *)
Definition unit_session_cmds : list (Cmd unit) :=
  [KeyS unit (Some tt) (Some tt) true; KeyS unit (Some tt) (Some tt) true].

Definition unit_session_run : option (Globals unit * list (Event unit)) :=
  run unit unit_mul unit_inverse unit_rotation unit_translation unit unit_tf atan2_stub
    solver_stub unit_session_cmds (globals_init unit tt "ee" "cam").

Definition unit_session : Globals unit :=
  match unit_session_run with
  | Some (g, _) => g
  | None => globals_init unit tt "ee" "cam"
  end.

Lemma unit_session_reachable :
  reachable unit unit_mul unit_inverse unit_rotation unit_translation tt unit unit_tf
    atan2_stub solver_stub unit_session.
Proof.
  exists unit_session_cmds, "ee", "cam".
  exists (match unit_session_run with Some (_, evs) => evs | None => [] end).
  vm_compute. reflexivity.
Qed.

Lemma writeTransformPairsToFile_layout_witness :
  length [tt] = length [tt] /\
  exists rest,
    writeTransformPairsToFile unit true [tt] [tt] = Some (0%Z, ("frameCount", NInt unit 1) :: rest).
Proof.
  split; [reflexivity|].
  destruct (writeTransformPairsToFile_layout unit [tt] [tt] eq_refl) as (rest & H & _).
  exists rest. exact H.
Defined.

Lemma writeTransformPairsToFile_t2_length_witness :
  writeTransformPairsToFile unit true [tt] ([tt] ++ [tt]) =
    writeTransformPairsToFile unit true [tt] [tt] /\
  writeTransformPairsToFile unit true [tt; tt] [tt] = None.
Proof.
  split.
  - exact (proj1 (writeTransformPairsToFile_t2_length unit true [tt] [tt] [tt]) eq_refl).
  - exact (proj2 (writeTransformPairsToFile_t2_length unit true [tt; tt] [tt] [])
             ltac:(simpl; lia)).
Defined.

Lemma readTransformPairsFromFile_no_count_witness :
  readTransformPairsFromFile unit tt cvRound_stub (Some [("frameCount", NInt unit 0)])
    [tt] [tt] = Some (0%Z, [tt], [tt]).
Proof.
  apply (readTransformPairsFromFile_no_count unit tt cvRound_stub
           [("frameCount", NInt unit 0)] [tt] [tt]).
  right. exists 0%Z. split; [reflexivity | lia].
Defined.


Lemma estimateHandEye_camToTag_length_witness :
  estimateHandEye unit unit_mul unit_inverse unit_rotation unit_translation tt atan2_stub
    solver_stub "ee" "cam" [tt] ([tt] ++ [tt]) =
  estimateHandEye unit unit_mul unit_inverse unit_rotation unit_translation tt atan2_stub
    solver_stub "ee" "cam" [tt] [tt] /\
  estimateHandEye unit unit_mul unit_inverse unit_rotation unit_translation tt atan2_stub
    solver_stub "ee" "cam" [tt; tt] [tt] = None.
Proof.
  split.
  - exact (proj1 (estimateHandEye_camToTag_length unit unit_mul unit_inverse unit_rotation
                    unit_translation tt atan2_stub solver_stub "ee" "cam" [tt] [tt] [tt])
             eq_refl).
  - exact (proj2 (estimateHandEye_camToTag_length unit unit_mul unit_inverse unit_rotation
                    unit_translation tt atan2_stub solver_stub "ee" "cam" [tt; tt] [tt] [])
             ltac:(simpl; lia)).
Defined.

Lemma capture_then_undo_restores_witness :
  baseToTip unit unit_session <> [] /\
  exists g1 evs1 evs2,
    main_step unit unit_mul unit_inverse unit_rotation unit_translation unit unit_tf
      atan2_stub solver_stub (KeyS unit (Some tt) (Some tt) false) unit_session =
      Some (g1, evs1, false) /\
    main_step unit unit_mul unit_inverse unit_rotation unit_translation unit unit_tf
      atan2_stub solver_stub (KeyD unit) g1 = Some (unit_session, evs2, false).
Proof.
  assert (Hne : baseToTip unit unit_session <> []) by (intros E; vm_compute in E; discriminate E).
  split; [exact Hne|].
  destruct (capture_then_undo_restores unit unit_mul unit_inverse unit_rotation
              unit_translation tt unit unit_tf atan2_stub solver_stub unit_session tt tt false
              unit_session_reachable Hne) as (g1 & evs1 & H1 & _ & _ & H4).
  exists g1, evs1. eexists. split; [exact H1 | exact H4].
Defined.

Lemma capture_record_file_reads_back_witness :
  exists g' evs b file,
    main_step unit unit_mul unit_inverse unit_rotation unit_translation unit unit_tf
      atan2_stub solver_stub (KeyS unit (Some tt) (Some tt) true) unit_session =
      Some (g', evs, b) /\
    last evs = Some (EvWritePairs unit 0%Z file) /\
    readTransformPairsFromFile unit tt cvRound_stub (Some file) [] [] =
      Some (0%Z, baseToTip unit g', cameraToTag unit g').
Proof.
  destruct (main_step unit unit_mul unit_inverse unit_rotation unit_translation unit unit_tf
              atan2_stub solver_stub (KeyS unit (Some tt) (Some tt) true) unit_session)
    as [[[g' evs] b]|] eqn:E; [|vm_compute in E; discriminate E].
  destruct (capture_record_file_reads_back unit unit_mul unit_inverse unit_rotation
              unit_translation tt unit unit_tf atan2_stub cvRound_stub solver_stub
              unit_session g' (Some tt) (Some tt) evs b unit_session_reachable E)
    as (file & H1 & H2).
  exists g', evs, b, file. split; [reflexivity | split; [exact H1 | exact H2]].
Defined.

Lemma load_mode_matches_interactive_witness :
  exists file evs,
    writeTransformPairsToFile unit true (baseToTip unit unit_session)
      (cameraToTag unit unit_session) = Some (0%Z, file) /\
    main_load unit unit_mul unit_inverse unit_rotation unit_translation tt atan2_stub
      cvRound_stub solver_stub "ee" "cam" (Some file) true = Some evs.
Proof.
  destruct (writeTransformPairsToFile unit true (baseToTip unit unit_session)
              (cameraToTag unit unit_session)) as [[code file]|] eqn:E;
    [|vm_compute in E; discriminate E].
  assert (Hc : code = 0%Z) by (vm_compute in E; injection E as <- _; reflexivity).
  subst code.
  pose proof (load_mode_matches_interactive unit unit_mul unit_inverse unit_rotation
                unit_translation tt unit unit_tf atan2_stub cvRound_stub solver_stub
                unit_session file "ee" "cam" true unit_session_reachable E) as H.
  simpl in H. destruct H as (logs & H & _).
  exists file. eexists. split; [reflexivity | exact H].
Defined.
